(** * termfields: updateable form fields on a terminal cell grid

    A shallow embedding of [termfields.go].  The Go package keeps one
    [field] record per form field and draws it through the termbox
    backend, a process-wide cell buffer guarded by the flag [tb.IsInit].
    Here the backend is a record holding that flag and the sequence of
    calls made to it, a method on [*field] is a computation in a small
    state monad over the pair (backend, receiver), Go's [int] is a [Z]
    wrapped to 64 bits, a Go [string] is a byte string, and ranging over
    a string decodes UTF-8 the way the Go runtime does. *)

From Stdlib Require Import ZArith Lia List String Ascii Bool.
From stdpp Require Import base option list gmap.
Import ListNotations.

Local Open Scope string_scope.
Local Open Scope list_scope.
Local Open Scope Z_scope.

(** ** Go's [int]: 64-bit two's complement *)

Definition intSize : Z := 64.
Definition minInt : Z := - 2 ^ (intSize - 1).
Definition maxInt : Z := 2 ^ (intSize - 1) - 1.

Definition is_int (z : Z) : Prop := minInt <= z <= maxInt.

(** The value an [int] expression has after overflow wrapped around. *)
Definition wrap (z : Z) : Z := (z - minInt) mod 2 ^ intSize + minInt.

Definition int_add (a b : Z) : Z := wrap (a + b).
Definition int_sub (a b : Z) : Z := wrap (a - b).

Declare Scope goint_scope.
Delimit Scope goint_scope with goint.
Arguments int_add (a b)%_goint.
Arguments int_sub (a b)%_goint.
Infix "+" := int_add : goint_scope.
Infix "-" := int_sub : goint_scope.

(** ** Strings, runes and [range] over a string *)

Definition rune : Type := Z.

Definition byte_val (c : ascii) : Z := Z.of_N (N_of_ascii c).

Fixpoint bytes (s : string) : list Z :=
  match s with
  | EmptyString => []
  | String c s' => byte_val c :: bytes s'
  end.

(** Constants of the runtime's UTF-8 decoder. *)
Definition runeError : rune := 0xFFFD.
Definition runeSelf : Z := 0x80.
Definition maxRune : rune := 0x10FFFF.
Definition surrogateMin : rune := 0xD800.
Definition surrogateMax : rune := 0xDFFF.
Definition t2 : Z := 0xC0.
Definition t3 : Z := 0xE0.
Definition t4 : Z := 0xF0.
Definition t5 : Z := 0xF8.
Definition maskx : Z := 0x3F.
Definition mask2 : Z := 0x1F.
Definition mask3 : Z := 0x0F.
Definition mask4 : Z := 0x07.
Definition rune1Max : rune := 0x7F.
Definition rune2Max : rune := 0x7FF.
Definition rune3Max : rune := 0xFFFF.
Definition locb : Z := 0x80.
Definition hicb : Z := 0xBF.

Definition cont (b : Z) : bool := (locb <=? b) && (b <=? hicb).

(** [decoderune s] decodes the rune that starts the non-ASCII byte
    sequence [s] and tells how many bytes it takes; an ill-formed
    sequence gives [runeError] and advances by one byte. *)
Definition decoderune (s : list Z) : rune * nat :=
  match s with
  | [] => (runeError, 1%nat)
  | b0 :: rest =>
    if (t2 <=? b0) && (b0 <? t3) then
      match rest with
      | b1 :: _ =>
        if cont b1 then
          let r := Z.lor (Z.shiftl (Z.land b0 mask2) 6) (Z.land b1 maskx) in
          if rune1Max <? r then (r, 2%nat) else (runeError, 1%nat)
        else (runeError, 1%nat)
      | _ => (runeError, 1%nat)
      end
    else if (t3 <=? b0) && (b0 <? t4) then
      match rest with
      | b1 :: b2 :: _ =>
        if cont b1 && cont b2 then
          let r := Z.lor (Z.lor (Z.shiftl (Z.land b0 mask3) 12)
                                (Z.shiftl (Z.land b1 maskx) 6))
                         (Z.land b2 maskx) in
          if (rune2Max <? r) && negb ((surrogateMin <=? r) && (r <=? surrogateMax))
          then (r, 3%nat) else (runeError, 1%nat)
        else (runeError, 1%nat)
      | _ => (runeError, 1%nat)
      end
    else if (t4 <=? b0) && (b0 <? t5) then
      match rest with
      | b1 :: b2 :: b3 :: _ =>
        if cont b1 && cont b2 && cont b3 then
          let r := Z.lor (Z.lor (Z.lor (Z.shiftl (Z.land b0 mask4) 18)
                                       (Z.shiftl (Z.land b1 maskx) 12))
                                (Z.shiftl (Z.land b2 maskx) 6))
                         (Z.land b3 maskx) in
          if (rune3Max <? r) && (r <=? maxRune)
          then (r, 4%nat) else (runeError, 1%nat)
        else (runeError, 1%nat)
      | _ => (runeError, 1%nat)
      end
    else (runeError, 1%nat)
  end.

(** [range_from i skip s]: the (index, rune) pairs that
    [for i, c := range] yields over the bytes [s], which start at byte
    offset [i] of the string; the first [skip] bytes belong to a rune
    that was already yielded. *)
Fixpoint range_from (i : Z) (skip : nat) (s : list Z) : list (Z * rune) :=
  match s with
  | [] => []
  | b :: rest =>
    match skip with
    | S k => range_from (i + 1) k rest
    | O =>
      if b <? runeSelf then (i, b) :: range_from (i + 1) 0 rest
      else let '(r, n) := decoderune s in
           (i, r) :: range_from (i + 1) (Nat.pred n) rest
    end
  end.

Definition range_string (s : string) : list (Z * rune) :=
  range_from 0 0 (bytes s).

Definition RuneCountInString (s : string) : Z :=
  Z.of_nat (length (range_string s)).

(** ** [fmt.Sprintf("%*s", wid, s)] *)

Fixpoint spaces (n : nat) : string :=
  match n with
  | O => EmptyString
  | S k => String " " (spaces k)
  end.

Definition tooLarge (n : Z) : bool := (1000000 <? n) || (n <? -1000000).

Definition badWidthString : string := "%!(BADWIDTH)".

(** A width argument beyond a million either way is refused; a negative
    one pads on the right. *)
Definition Sprintf_star_s (wid : Z) (s : string) : string :=
  if tooLarge wid then (badWidthString ++ s)%string
  else
    let minus := wid <? 0 in
    let pad := Z.abs wid - RuneCountInString s in
    if pad <=? 0 then s
    else if minus then (s ++ spaces (Z.to_nat pad))%string
    else (spaces (Z.to_nat pad) ++ s)%string.

(** ** The termbox backend

    Only what the package uses: the flag [IsInit] and the two drawing
    calls, whose sequence is recorded in call order. *)

Module tb.

Inductive Attribute : Type := ColorDefault.

Inductive call : Type :=
| CSetCell (x y : Z) (ch : rune) (fg bg : Attribute)
| CFlush.

Record Terminal : Type := mkTerminal {
  IsInit : bool;
  calls : list call
}.

Definition SetCell (x y : Z) (ch : rune) (fg bg : Attribute)
  (t : Terminal) : Terminal :=
  mkTerminal (IsInit t) (calls t ++ [CSetCell x y ch fg bg]).

Definition Flush (t : Terminal) : Terminal :=
  mkTerminal (IsInit t) (calls t ++ [CFlush]).

End tb.

(** ** Styles, directions and the field record *)

Definition boxStyle : Type := N.
Definition shiftDir : Type := N.

Definition boxStyleClear : boxStyle := 0%N.
Definition BoxStyleNone : boxStyle := 1%N.
Definition BoxStyleASCII : boxStyle := 2%N.
Definition BoxStyleUnicode : boxStyle := 3%N.

Definition FieldShiftLeft : shiftDir := 0%N.
Definition FieldShiftRight : shiftDir := 1%N.
Definition FieldShiftUp : shiftDir := 2%N.
Definition FieldShiftDown : shiftDir := 3%N.

Record field : Type := mkfield {
  x : Z;
  y : Z;
  len : Z;
  border : boxStyle;
  text : string
}.

Record Field : Type := mkField { embedded : field }.

(** The table [init] builds: four corners, the horizontal edge, the
    vertical edge. *)
Definition boxRunesMap : gmap N (list rune) :=
  <[boxStyleClear := [32; 32; 32; 32; 32; 32]]>
  (<[BoxStyleNone := [0; 0; 0; 0; 0; 0]]>
  (<[BoxStyleASCII := [43; 43; 43; 43; 45; 124]]>
  (<[BoxStyleUnicode := [0x250c; 0x2510; 0x2514; 0x2518; 0x2500; 0x2502]]>
   ∅))).

(** [boxRunesMap[boxType][i]]: an absent key gives the nil slice. *)
Definition runes_of (boxType : boxStyle) : list rune :=
  default [] (boxRunesMap !! boxType).

Definition index (l : list rune) (i : nat) : rune := nth i l 0.

Inductive error : Type := Errorf (msg : string).

(** ** Methods as state-passing computations

    A method runs against the backend and its receiver. *)

Record World : Type := mkWorld {
  term : tb.Terminal;
  self : field
}.

Definition M (A : Type) : Type := World -> A * World.

Definition ret {A} (a : A) : M A := fun w => (a, w).
Definition bind {A B} (m : M A) (k : A -> M B) : M B :=
  fun w => let '(a, w') := m w in k a w'.

Notation "v <- m ;; k" := (bind m (fun v => k))
  (at level 100, m at next level, right associativity).
Notation "m ;; k" := (bind m (fun _ => k))
  (at level 100, right associativity).

Definition get : M field := fun w => (self w, w).
Definition put (f : field) : M unit := fun w => (tt, mkWorld (term w) f).
Definition backend : M tb.Terminal := fun w => (term w, w).
Definition draw (op : tb.Terminal -> tb.Terminal) : M unit :=
  fun w => (tt, mkWorld (op (term w)) (self w)).

Definition set_x (v : Z) : M unit :=
  f <- get ;; put (mkfield v (y f) (len f) (border f) (text f)).
Definition set_y (v : Z) : M unit :=
  f <- get ;; put (mkfield (x f) v (len f) (border f) (text f)).
Definition set_border (v : boxStyle) : M unit :=
  f <- get ;; put (mkfield (x f) (y f) (len f) v (text f)).
Definition set_text (v : string) : M unit :=
  f <- get ;; put (mkfield (x f) (y f) (len f) (border f) v).

Definition exec {A} (m : M A) (t : tb.Terminal) (f : field) : World :=
  snd (m (mkWorld t f)).
Definition result {A} (m : M A) (t : tb.Terminal) (f : field) : A :=
  fst (m (mkWorld t f)).

(** [for _, e := range l { body e }] over an already computed sequence. *)
Fixpoint for_each {A} (l : list A) (body : A -> M unit) : M unit :=
  match l with
  | [] => ret tt
  | a :: l' => body a ;; for_each l' body
  end.

(** [for i := i0; i < hi; i++ { body i }].  [fuel] bounds the number of
    iterations; [for_lt] supplies [hi - i0], which is never exhausted
    before the condition fails. *)
Fixpoint for_loop (fuel : nat) (i hi : Z) (body : Z -> M unit) : M unit :=
  match fuel with
  | O => ret tt
  | S fuel' =>
    if i <? hi then body i ;; for_loop fuel' (i + 1)%goint hi body
    else ret tt
  end.

Definition for_lt (i0 hi : Z) (body : Z -> M unit) : M unit :=
  for_loop (Z.to_nat (hi - i0)) i0 hi body.

(** ** The package's functions *)

Definition Row : M Z := f <- get ;; ret (y f).
Definition Column : M Z := f <- get ;; ret (x f).

Definition Update (s : string) : M (option error) :=
  t <- backend ;;
  if negb (tb.IsInit t) then ret (Some (Errorf "Term not Initialized"))
  else
    for_each (range_string s) (fun '(i, c) =>
      f <- get ;;
      draw (tb.SetCell (x f + i)%goint (y f) c tb.ColorDefault tb.ColorDefault)) ;;
    draw tb.Flush ;;
    set_text s ;;
    ret None.

Definition DrawBox (boxType : boxStyle) : M (option error) :=
  t <- backend ;;
  if negb (tb.IsInit t) then ret (Some (Errorf "Term not Initialized"))
  else
    match boxRunesMap !! boxType with
    | None => ret (Some (Errorf "Unknown Box Style"))
    | Some _ =>
      let glyph := index (runes_of boxType) in
      let cell cx cy ch := draw (tb.SetCell cx cy ch tb.ColorDefault tb.ColorDefault) in
      f <- get ;;
      cell (x f - 1)%goint (y f - 1)%goint (glyph 0%nat) ;;
      cell (x f + len f + 1)%goint (y f - 1)%goint (glyph 1%nat) ;;
      cell (x f - 1)%goint (y f + 1)%goint (glyph 2%nat) ;;
      cell (x f + len f + 1)%goint (y f + 1)%goint (glyph 3%nat) ;;
      cell (x f - 1)%goint (y f) (glyph 5%nat) ;;
      cell (x f + len f + 1)%goint (y f) (glyph 5%nat) ;;
      for_lt 0 (len f + 1)%goint (fun i =>
        cell (x f + i)%goint (y f - 1)%goint (glyph 4%nat) ;;
        cell (x f + i)%goint (y f + 1)%goint (glyph 4%nat)) ;;
      draw tb.Flush ;;
      set_border boxType ;;
      ret None
    end.

Definition Loc (y0 x0 : Z) : M unit :=
  f <- get ;;
  let border0 := border f in
  Update (Sprintf_star_s (len f) " ") ;;
  DrawBox boxStyleClear ;;
  set_x x0 ;;
  set_y y0 ;;
  DrawBox border0 ;;
  f' <- get ;;
  Update (text f') ;;
  ret tt.

Definition Shift (dir : shiftDir) : M unit :=
  f <- get ;;
  let border0 := border f in
  DrawBox boxStyleClear ;;
  (if N.eqb dir FieldShiftLeft then f <- get ;; set_x (x f - 1)%goint
   else if N.eqb dir FieldShiftRight then f <- get ;; set_x (x f + 1)%goint
   else if N.eqb dir FieldShiftUp then f <- get ;; set_y (y f - 1)%goint
   else if N.eqb dir FieldShiftDown then f <- get ;; set_y (y f + 1)%goint
   else ret tt) ;;
  DrawBox border0 ;;
  f' <- get ;;
  Update (text f') ;;
  ret tt.

(** [NewField] starts from the zero value of every attribute it does not
    set, so the border is style 0 and the text is empty; the error of the
    first [Update] decides between the two return shapes. *)
Definition NewField (y0 x0 len0 : Z) (text0 : string)
  (t : tb.Terminal) : (option Field * option error) * tb.Terminal :=
  let f := mkfield x0 y0 len0 0%N EmptyString in
  let '(err, w) := Update text0 (mkWorld t f) in
  match err with
  | Some e => ((None, Some e), term w)
  | None => ((Some (mkField (self w)), None), term w)
  end.

(** ** What a computation drew *)

Fixpoint cells (l : list tb.call) : list (Z * Z * rune) :=
  match l with
  | [] => []
  | tb.CSetCell cx cy ch _ _ :: l' => (cx, cy, ch) :: cells l'
  | tb.CFlush :: l' => cells l'
  end.

(** The cells [m] set, in order, when run on backend [t] and field [f]. *)
Definition written {A} (m : M A) (t : tb.Terminal) (f : field) : list (Z * Z * rune) :=
  cells (drop (length (tb.calls t)) (tb.calls (term (exec m t f)))).

Definition set_cell (cx cy : Z) (ch : rune) : tb.call :=
  tb.CSetCell cx cy ch tb.ColorDefault tb.ColorDefault.

(** The values [i] takes in [for_loop]. *)
Fixpoint count_up (fuel : nat) (i hi : Z) : list Z :=
  match fuel with
  | O => []
  | S fuel' => if i <? hi then i :: count_up fuel' (i + 1)%goint hi else []
  end.

Definition text_calls (f : field) (s : string) : list tb.call :=
  map (fun '(i, c) => set_cell (x f + i)%goint (y f) c) (range_string s).

Definition box_calls (f : field) (g : list rune) : list tb.call :=
  [ set_cell (x f - 1)%goint (y f - 1)%goint (index g 0);
    set_cell (x f + len f + 1)%goint (y f - 1)%goint (index g 1);
    set_cell (x f - 1)%goint (y f + 1)%goint (index g 2);
    set_cell (x f + len f + 1)%goint (y f + 1)%goint (index g 3);
    set_cell (x f - 1)%goint (y f) (index g 5);
    set_cell (x f + len f + 1)%goint (y f) (index g 5) ]
  ++ flat_map (fun i => [ set_cell (x f + i)%goint (y f - 1)%goint (index g 4);
                          set_cell (x f + i)%goint (y f + 1)%goint (index g 4) ])
       (count_up (Z.to_nat ((len f + 1)%goint - 0)%Z) 0 (len f + 1)%goint).

Definition with_text (f : field) (s : string) : field :=
  mkfield (x f) (y f) (len f) (border f) s.
Definition with_border (f : field) (b : boxStyle) : field :=
  mkfield (x f) (y f) (len f) b (text f).
Definition moved (f : field) (x0 y0 : Z) : field :=
  mkfield x0 y0 (len f) (border f) (text f).
Definition logged (t : tb.Terminal) (l : list tb.call) : tb.Terminal :=
  tb.mkTerminal (tb.IsInit t) (tb.calls t ++ l).

Definition recognized (s : boxStyle) : Prop :=
  s = boxStyleClear \/ s = BoxStyleNone \/ s = BoxStyleASCII \/ s = BoxStyleUnicode.

Definition public_style (s : boxStyle) : Prop :=
  s = BoxStyleNone \/ s = BoxStyleASCII \/ s = BoxStyleUnicode.

(** The fields the package can build: every [int] attribute is in
    range and the border is a key of [boxRunesMap]. *)
Definition valid_field (f : field) : Prop :=
  is_int (x f) /\ is_int (y f) /\ is_int (len f) /\ recognized (border f).

(** The glyphs of the Clear style, and the string [Loc] blanks the
    content area with. *)
Definition clear_glyphs : list rune := [32; 32; 32; 32; 32; 32].

Definition blank (f : field) : string := Sprintf_star_s (len f) " ".

(** The receiver after the [switch] of [Shift]. *)
Definition step_dir (dir : shiftDir) (f : field) : field :=
  if N.eqb dir FieldShiftLeft then moved f (x f - 1)%goint (y f)
  else if N.eqb dir FieldShiftRight then moved f (x f + 1)%goint (y f)
  else if N.eqb dir FieldShiftUp then moved f (x f) (y f - 1)%goint
  else if N.eqb dir FieldShiftDown then moved f (x f) (y f + 1)%goint
  else f.

(** The bytes of [l] with their offsets, from [i] on. *)
Fixpoint indexed (i : Z) (l : list Z) : list (Z * Z) :=
  match l with
  | [] => []
  | b :: l' => (i, b) :: indexed (i + 1) l'
  end.

Definition is_blank_or_ascii_border (ch : rune) : bool :=
  (ch =? 32) || (ch =? 43) || (ch =? 45) || (ch =? 124).

(** Sample inputs. *)
Definition term_ready : tb.Terminal := tb.mkTerminal true [].
Definition term_closed : tb.Terminal := tb.mkTerminal false [].
Definition hello_field : field := mkfield 10 5 8 BoxStyleASCII "hello".
Definition e_acute_a : string := String "195" (String "169" "a").

(** The direction whose [Shift] undoes the [Shift] in direction [dir]. *)
Definition opposite (dir : shiftDir) : shiftDir :=
  if N.eqb dir FieldShiftLeft then FieldShiftRight
  else if N.eqb dir FieldShiftRight then FieldShiftLeft
  else if N.eqb dir FieldShiftUp then FieldShiftDown
  else if N.eqb dir FieldShiftDown then FieldShiftUp
  else dir.

(** Where cells were set, whatever was put there. *)
Definition coords (l : list (Z * Z * rune)) : list (Z * Z) := map fst l.

(** * Properties *)

(** ** Wrap-around arithmetic *)

Lemma wrap_is_int z : is_int (wrap z).
Proof.
  unfold is_int, wrap, minInt, maxInt, intSize.
  pose proof (Z.mod_pos_bound (z - - 2 ^ (64 - 1)) (2 ^ 64) ltac:(lia)). lia.
Qed.

Lemma wrap_id z : is_int z -> wrap z = z.
Proof.
  unfold is_int, wrap, minInt, maxInt, intSize. intros Hz.
  rewrite Z.mod_small; lia.
Qed.

Lemma wrap_add_l a b : wrap (wrap a + b) = wrap (a + b).
Proof.
  unfold wrap. f_equal.
  replace ((a - minInt) mod 2 ^ intSize + minInt + b - minInt)
    with ((a - minInt) mod 2 ^ intSize + b) by lia.
  rewrite Zplus_mod_idemp_l. f_equal. lia.
Qed.

Lemma int_sub_add a : is_int a -> (a - 1 + 1)%goint = a.
Proof.
  intros Ha. unfold int_add, int_sub. rewrite wrap_add_l.
  replace (a - 1 + 1) with a by lia. now apply wrap_id.
Qed.

Lemma int_add_sub a : is_int a -> (a + 1 - 1)%goint = a.
Proof.
  intros Ha. unfold int_add, int_sub.
  replace (wrap (a + 1) - 1) with (wrap (a + 1) + -1) by lia.
  rewrite wrap_add_l.
  replace (a + 1 + -1) with a by lia. now apply wrap_id.
Qed.

Lemma int_add_exact a b : is_int (a + b) -> (a + b)%goint = a + b.
Proof. apply wrap_id. Qed.

(** ** The glyph table *)

Lemma recognized_lookup s : recognized s -> is_Some (boxRunesMap !! s).
Proof. intros [-> | [-> | [-> | ->]]]; vm_compute; eauto. Qed.

Lemma unrecognized_lookup s : ~ recognized s -> boxRunesMap !! s = None.
Proof.
  intros Hs. unfold boxRunesMap, recognized in *.
  rewrite !lookup_insert_ne by (intros <-; tauto).
  apply lookup_empty.
Qed.

Lemma lookup_recognized s g : boxRunesMap !! s = Some g -> recognized s.
Proof.
  intros Hg. destruct (decide (recognized s)) as [|Hn]; [assumption|].
  rewrite (unrecognized_lookup _ Hn) in Hg. discriminate.
Qed.

(** Every entry holds six glyphs, so no index of [DrawBox] is out of range. *)
Lemma six_glyphs s g : boxRunesMap !! s = Some g -> length g = 6%nat.
Proof.
  intros Hg. pose proof (lookup_recognized _ _ Hg) as [-> | [-> | [-> | ->]]];
    vm_compute in Hg; injection Hg as <-; reflexivity.
Qed.

(** ** The backend log *)

Lemma logged_nil t : logged t [] = t.
Proof. destruct t. unfold logged. simpl. now rewrite app_nil_r. Qed.

Lemma logged_app t l1 l2 : logged (logged t l1) l2 = logged t (l1 ++ l2).
Proof. unfold logged. simpl. now rewrite app_assoc. Qed.

Lemma logged_IsInit t l : tb.IsInit (logged t l) = tb.IsInit t.
Proof. reflexivity. Qed.

Lemma cells_app l1 l2 : cells (l1 ++ l2) = cells l1 ++ cells l2.
Proof.
  induction l1 as [|c l1 IH]; [reflexivity|].
  destruct c; simpl; now rewrite IH.
Qed.

Lemma written_logged {A} (m : M A) t f l :
  term (exec m t f) = logged t l -> written m t f = cells l.
Proof.
  intros E. unfold written. rewrite E. simpl. now rewrite drop_app_length.
Qed.

(** ** Loops *)

Lemma bind_run {A B} (m : M A) (k : A -> M B) w a w' :
  m w = (a, w') -> bind m k w = k a w'.
Proof. intros E. unfold bind. now rewrite E. Qed.

Lemma for_each_logged {A} (l : list A) (body : A -> M unit)
    (c : A -> list tb.call) f :
  (forall a t, body a (mkWorld t f) = (tt, mkWorld (logged t (c a)) f)) ->
  forall t, for_each l body (mkWorld t f)
            = (tt, mkWorld (logged t (flat_map c l)) f).
Proof.
  intros Hbody. induction l as [|a l IH]; intros t; simpl.
  - now rewrite logged_nil.
  - rewrite (bind_run _ _ _ _ _ (Hbody a t)), IH. now rewrite logged_app.
Qed.

Lemma for_loop_logged fuel (body : Z -> M unit) (c : Z -> list tb.call) hi f :
  (forall j t, body j (mkWorld t f) = (tt, mkWorld (logged t (c j)) f)) ->
  forall i t, for_loop fuel i hi body (mkWorld t f)
              = (tt, mkWorld (logged t (flat_map c (count_up fuel i hi))) f).
Proof.
  intros Hbody. induction fuel as [|fuel IH]; intros i t; simpl.
  - now rewrite logged_nil.
  - destruct (i <? hi); simpl.
    + rewrite (bind_run _ _ _ _ _ (Hbody i t)), IH. now rewrite logged_app.
    + now rewrite logged_nil.
Qed.


(** More fuel than [hi - i] changes nothing: the loop has ended. *)
Lemma for_loop_fuel hi body : hi <= maxInt ->
  forall fuel k i w, minInt <= i -> hi - i <= Z.of_nat fuel ->
  for_loop (fuel + k) i hi body w = for_loop fuel i hi body w.
Proof.
  intros Hhi. induction fuel as [|fuel IH]; intros k i w Hi Hfuel; simpl.
  - destruct k; simpl; [reflexivity|].
    destruct (Z.ltb_spec i hi); [lia | reflexivity].
  - destruct (Z.ltb_spec i hi) as [Hlt | Hge]; [|reflexivity].
    unfold bind. destruct (body i w) as [[] w'].
    assert (Hs : (i + 1)%goint = i + 1).
    { apply int_add_exact. unfold is_int. lia. }
    rewrite Hs. apply IH; lia.
Qed.

(** ** [Update] and [DrawBox], case by case *)

Lemma Update_not_init s t f : tb.IsInit t = false ->
  Update s (mkWorld t f) = (Some (Errorf "Term not Initialized"), mkWorld t f).
Proof. intros E. unfold Update, bind, backend. simpl. now rewrite E. Qed.

Lemma Update_init s t f : tb.IsInit t = true ->
  Update s (mkWorld t f)
  = (None, mkWorld (logged t (text_calls f s ++ [tb.CFlush])) (with_text f s)).
Proof.
  intros E. unfold Update, bind at 1, backend. simpl. rewrite E. simpl.
  erewrite bind_run; cycle 1.
  { apply (for_each_logged _ _ (fun '(i, c) => [set_cell (x f + i)%goint (y f) c])).
    intros [i c] t'. reflexivity. }
  unfold bind, draw, set_text, get, put, ret, with_text. simpl.
  do 2 f_equal. unfold tb.Flush, logged, text_calls. simpl.
  f_equal. rewrite <- app_assoc. do 2 f_equal.
  induction (range_string s) as [|[i c] l IH]; simpl; [reflexivity|].
  now rewrite IH.
Qed.

Lemma DrawBox_not_init bs t f : tb.IsInit t = false ->
  DrawBox bs (mkWorld t f) = (Some (Errorf "Term not Initialized"), mkWorld t f).
Proof. intros E. unfold DrawBox, bind, backend. simpl. now rewrite E. Qed.

Lemma DrawBox_unknown bs t f : tb.IsInit t = true -> boxRunesMap !! bs = None ->
  DrawBox bs (mkWorld t f) = (Some (Errorf "Unknown Box Style"), mkWorld t f).
Proof.
  intros E Hbs. unfold DrawBox, bind, backend. simpl. rewrite E, Hbs.
  reflexivity.
Qed.

Lemma DrawBox_init bs g t f : tb.IsInit t = true -> boxRunesMap !! bs = Some g ->
  DrawBox bs (mkWorld t f)
  = (None, mkWorld (logged t (box_calls f g ++ [tb.CFlush])) (with_border f bs)).
Proof.
  intros E Hbs. unfold DrawBox, bind at 1, backend. simpl. rewrite E, Hbs. simpl.
  unfold runes_of. rewrite Hbs. simpl.
  unfold bind at 1, get. simpl.
  do 6 (unfold bind at 1, draw at 1; simpl).
  erewrite bind_run; cycle 1.
  { unfold for_lt.
    apply (for_loop_logged _ _
      (fun i => [ set_cell (x f + i)%goint (y f - 1)%goint (index g 4);
                  set_cell (x f + i)%goint (y f + 1)%goint (index g 4) ])).
    intros j t'. unfold bind, draw. simpl. unfold logged, tb.SetCell. simpl.
    now rewrite <- app_assoc. }
  unfold bind, draw, set_border, get, put, ret, with_border. simpl.
  do 2 f_equal. unfold tb.Flush, tb.SetCell, logged, box_calls. simpl.
  f_equal. rewrite <- !app_assoc. reflexivity.
Qed.

(** ** [Loc] and [Shift], case by case *)

Ltac init_side := solve [ eassumption | simpl; eassumption | reflexivity ].

Ltac run_step :=
  erewrite bind_run;
  [ | first
      [ apply Update_init; init_side
      | apply Update_not_init; init_side
      | apply DrawBox_init; init_side
      | apply DrawBox_unknown; init_side
      | apply DrawBox_not_init; init_side
      | reflexivity ] ];
  cbn [fst snd self term with_text with_border moved x y len border text].

Lemma Clear_glyphs : boxRunesMap !! boxStyleClear = Some clear_glyphs.
Proof. reflexivity. Qed.

Lemma Loc_not_init r c t f : tb.IsInit t = false ->
  Loc r c (mkWorld t f) = (tt, mkWorld t (moved f c r)).
Proof.
  intros E. unfold Loc. repeat run_step. reflexivity.
Qed.

Lemma Loc_init r c t f g :
  tb.IsInit t = true -> boxRunesMap !! border f = Some g ->
  Loc r c (mkWorld t f)
  = (tt, mkWorld
           (logged t
              (text_calls f (blank f) ++ [tb.CFlush]
               ++ box_calls f clear_glyphs ++ [tb.CFlush]
               ++ box_calls (moved f c r) g ++ [tb.CFlush]
               ++ text_calls (moved f c r) (blank f) ++ [tb.CFlush]))
           (mkfield c r (len f) (border f) (blank f))).
Proof.
  intros E Hg. unfold Loc. pose proof Clear_glyphs as HC.
  repeat run_step. unfold ret. rewrite !logged_app, <- !app_assoc.
  reflexivity.
Qed.

Lemma Loc_init_unknown r c t f :
  tb.IsInit t = true -> boxRunesMap !! border f = None ->
  Loc r c (mkWorld t f)
  = (tt, mkWorld
           (logged t
              (text_calls f (blank f) ++ [tb.CFlush]
               ++ box_calls f clear_glyphs ++ [tb.CFlush]
               ++ text_calls (moved f c r) (blank f) ++ [tb.CFlush]))
           (mkfield c r (len f) boxStyleClear (blank f))).
Proof.
  intros E Hg. unfold Loc. pose proof Clear_glyphs as HC.
  repeat run_step. unfold ret. rewrite !logged_app, <- !app_assoc.
  reflexivity.
Qed.

Lemma switch_run dir t f :
  (if N.eqb dir FieldShiftLeft then f <- get ;; set_x (x f - 1)%goint
   else if N.eqb dir FieldShiftRight then f <- get ;; set_x (x f + 1)%goint
   else if N.eqb dir FieldShiftUp then f <- get ;; set_y (y f - 1)%goint
   else if N.eqb dir FieldShiftDown then f <- get ;; set_y (y f + 1)%goint
   else ret tt) (mkWorld t f)
  = (tt, mkWorld t (step_dir dir f)).
Proof.
  unfold step_dir.
  destruct (N.eqb dir FieldShiftLeft); [reflexivity|].
  destruct (N.eqb dir FieldShiftRight); [reflexivity|].
  destruct (N.eqb dir FieldShiftUp); [reflexivity|].
  destruct (N.eqb dir FieldShiftDown); [reflexivity|].
  now destruct f.
Qed.

Lemma step_dir_frame dir f :
  len (step_dir dir f) = len f /\ border (step_dir dir f) = border f
  /\ text (step_dir dir f) = text f.
Proof.
  unfold step_dir.
  repeat match goal with |- context [N.eqb ?a ?b] => destruct (N.eqb a b) end;
    simpl; auto.
Qed.

Lemma step_dir_with_border dir f b :
  step_dir dir (with_border f b) = with_border (step_dir dir f) b.
Proof.
  unfold step_dir.
  repeat match goal with |- context [N.eqb ?a ?b] => destruct (N.eqb a b) end;
    reflexivity.
Qed.

Lemma with_border_same f : with_border f (border f) = f.
Proof. now destruct f. Qed.

Lemma Shift_not_init dir t f : tb.IsInit t = false ->
  Shift dir (mkWorld t f) = (tt, mkWorld t (step_dir dir f)).
Proof.
  intros E. unfold Shift. do 2 run_step.
  rewrite (bind_run _ _ _ _ _ (switch_run dir t f)).
  repeat run_step. reflexivity.
Qed.

Lemma Shift_init dir t f g :
  tb.IsInit t = true -> boxRunesMap !! border f = Some g ->
  Shift dir (mkWorld t f)
  = (tt, mkWorld
           (logged t
              (box_calls f clear_glyphs ++ [tb.CFlush]
               ++ box_calls (step_dir dir f) g ++ [tb.CFlush]
               ++ text_calls (step_dir dir f) (text f) ++ [tb.CFlush]))
           (step_dir dir f)).
Proof.
  intros E Hg. unfold Shift. pose proof Clear_glyphs as HC.
  do 2 run_step.
  erewrite bind_run by apply switch_run.
  rewrite step_dir_with_border.
  destruct (step_dir_frame dir f) as (Hl & Hb & Ht).
  set (f1 := step_dir dir f) in *.
  repeat run_step. unfold ret. rewrite !logged_app, <- !app_assoc.
  rewrite Ht.
  replace (with_text (with_border (with_border f1 boxStyleClear) (border f)) (text f))
    with f1 by (destruct f1; simpl in *; now subst).
  reflexivity.
Qed.

(** ** Content update *)

(** C5: [Update newText] fails with the error "Term not Initialized" and
    leaves the stored text as it was when the backend is not
    initialized; when it is, the call succeeds and the stored text is
    [newText]. *)
Theorem Update_error_or_store (newText : string) (t : tb.Terminal) (f : field) :
  (tb.IsInit t = false ->
     result (Update newText) t f = Some (Errorf "Term not Initialized")
     /\ text (self (exec (Update newText) t f)) = text f)
  /\
  (tb.IsInit t = true ->
     result (Update newText) t f = None
     /\ text (self (exec (Update newText) t f)) = newText).
Proof.
  unfold result, exec. split; intros E.
  - now rewrite Update_not_init.
  - now rewrite Update_init.
Qed.

Lemma Update_error_or_store_witness :
  (result (Update "hi") term_closed hello_field
     = Some (Errorf "Term not Initialized")
   /\ text (self (exec (Update "hi") term_closed hello_field)) = "hello")
  /\
  (result (Update "hi") term_ready hello_field = None
   /\ text (self (exec (Update "hi") term_ready hello_field)) = "hi").
Proof.
  split.
  - apply (proj1 (Update_error_or_store "hi" term_closed hello_field)).
    reflexivity.
  - apply (proj2 (Update_error_or_store "hi" term_ready hello_field)).
    reflexivity.
Defined.

(** ** Construction *)

(** C9: with the backend initialized, [NewField y x len text] returns a
    Field and a nil error for all integers [y], [x], [len], a zero or
    negative [len] included, and the Field stores exactly those three
    values. *)
Theorem NewField_stores_arguments (y0 x0 len0 : Z) (text0 : string)
    (t : tb.Terminal) :
  tb.IsInit t = true ->
  exists F t',
    NewField y0 x0 len0 text0 t = (Some F, None, t')
    /\ y (embedded F) = y0 /\ x (embedded F) = x0 /\ len (embedded F) = len0.
Proof.
  intros E. unfold NewField. rewrite Update_init by assumption.
  eexists _, _. split; [reflexivity|]. simpl. auto.
Qed.

Lemma NewField_stores_arguments_witness :
  tb.IsInit term_ready = true /\
  exists F t',
    NewField 5 10 (-3) "hello" term_ready = (Some F, None, t')
    /\ y (embedded F) = 5 /\ x (embedded F) = 10 /\ len (embedded F) = -3.
Proof.
  split; [reflexivity|].
  apply (NewField_stores_arguments 5 10 (-3) "hello" term_ready).
  reflexivity.
Defined.

(** ** Border drawing: the style check *)

(** C6: with the backend initialized, [DrawBox style] with a style that
    is none of Clear, None, ASCII, Unicode returns the error
    "Unknown Box Style", sets no cell and leaves the stored border style
    as it was. *)
Theorem DrawBox_unknown_style (style : boxStyle) (t : tb.Terminal) (f : field) :
  tb.IsInit t = true ->
  ~ recognized style ->
  result (DrawBox style) t f = Some (Errorf "Unknown Box Style")
  /\ written (DrawBox style) t f = []
  /\ border (self (exec (DrawBox style) t f)) = border f.
Proof.
  intros E Hs. apply unrecognized_lookup in Hs.
  unfold result, written, exec. rewrite DrawBox_unknown by assumption. simpl.
  now rewrite drop_all.
Qed.

Lemma DrawBox_unknown_style_witness :
  tb.IsInit term_ready = true /\
  ~ recognized 7%N /\
  result (DrawBox 7%N) term_ready hello_field = Some (Errorf "Unknown Box Style")
  /\ written (DrawBox 7%N) term_ready hello_field = []
  /\ border (self (exec (DrawBox 7%N) term_ready hello_field)) = border hello_field.
Proof.
  assert (H7 : ~ recognized 7%N).
  { unfold recognized. intros [H | [H | [H | H]]]; discriminate H. }
  split; [reflexivity|]. split; [exact H7|].
  apply (DrawBox_unknown_style 7%N term_ready hello_field); [reflexivity | exact H7].
Defined.

(** ** Border drawing: geometry *)

Lemma recognized_six style : recognized style ->
  exists tl tr bl br h v, boxRunesMap !! style = Some [tl; tr; bl; br; h; v].
Proof.
  intros [-> | [-> | [-> | ->]]]; do 6 eexists; reflexivity.
Qed.

Lemma cells_edges (cx : Z -> Z) (cy1 cy2 : Z) (ch : rune) (l : list Z) :
  cells (flat_map (fun i => [set_cell (cx i) cy1 ch; set_cell (cx i) cy2 ch]) l)
  = flat_map (fun i => [(cx i, cy1, ch); (cx i, cy2, ch)]) l.
Proof.
  induction l as [|i l IH]; [reflexivity|]. simpl. now rewrite IH.
Qed.



(** ** Shift *)

Lemma Shift_init_unknown dir t f :
  tb.IsInit t = true -> boxRunesMap !! border f = None ->
  Shift dir (mkWorld t f)
  = (tt, mkWorld
           (logged t
              (box_calls f clear_glyphs ++ [tb.CFlush]
               ++ text_calls (step_dir dir f) (text f) ++ [tb.CFlush]))
           (with_border (step_dir dir f) boxStyleClear)).
Proof.
  intros E Hg. unfold Shift. pose proof Clear_glyphs as HC.
  do 2 run_step.
  erewrite bind_run by apply switch_run.
  rewrite step_dir_with_border.
  destruct (step_dir_frame dir f) as (Hl & Hb & Ht).
  set (f1 := step_dir dir f) in *.
  repeat run_step. unfold ret. rewrite !logged_app, <- !app_assoc.
  rewrite Ht.
  replace (with_text (with_border f1 boxStyleClear) (text f))
    with (with_border f1 boxStyleClear)
    by (destruct f1; simpl in *; now subst).
  reflexivity.
Qed.

Lemma step_dir_left_right f : is_int (x f) ->
  step_dir FieldShiftRight (step_dir FieldShiftLeft f) = f.
Proof.
  intros Hx. destruct f as [fx fy fl fb ft]. unfold step_dir, moved. simpl in *.
  now rewrite int_sub_add.
Qed.

Lemma step_dir_up_down f : is_int (y f) ->
  step_dir FieldShiftDown (step_dir FieldShiftUp f) = f.
Proof.
  intros Hy. destruct f as [fx fy fl fb ft]. unfold step_dir, moved. simpl in *.
  now rewrite int_sub_add.
Qed.

Lemma step_dir_other dir f :
  dir <> FieldShiftLeft -> dir <> FieldShiftRight ->
  dir <> FieldShiftUp -> dir <> FieldShiftDown ->
  step_dir dir f = f.
Proof.
  intros HL HR HU HD. unfold step_dir.
  apply N.eqb_neq in HL, HR, HU, HD. now rewrite HL, HR, HU, HD.
Qed.

Lemma Shift_twice d1 d2 t f :
  tb.IsInit t = true -> recognized (border f) ->
  self (exec (Shift d1 ;; Shift d2) t f) = step_dir d2 (step_dir d1 f).
Proof.
  intros E Hb. destruct (recognized_lookup _ Hb) as [g Hg].
  unfold exec. erewrite bind_run by (eapply Shift_init; eassumption).
  destruct (step_dir_frame d1 f) as (_ & Hb1 & _).
  erewrite Shift_init; [reflexivity | exact E | rewrite Hb1; eassumption].
Qed.

(** C8: with the backend initialized, [Shift(Left)] followed by
    [Shift(Right)] leaves a field in its original column, and
    [Shift(Up)] followed by [Shift(Down)] leaves it in its original row;
    the stored border style is the original one after both calls. *)
Theorem Shift_there_and_back (t : tb.Terminal) (f : field) :
  tb.IsInit t = true ->
  valid_field f ->
  let lr := self (exec (Shift FieldShiftLeft ;; Shift FieldShiftRight) t f) in
  let ud := self (exec (Shift FieldShiftUp ;; Shift FieldShiftDown) t f) in
  x lr = x f /\ border lr = border f /\ y ud = y f /\ border ud = border f.
Proof.
  intros E (Hx & Hy & _ & Hb). cbv zeta.
  rewrite !Shift_twice by assumption.
  now rewrite step_dir_left_right, step_dir_up_down.
Qed.

Lemma Shift_there_and_back_witness :
  tb.IsInit term_ready = true /\ valid_field hello_field /\
  x (self (exec (Shift FieldShiftLeft ;; Shift FieldShiftRight) term_ready hello_field)) = 10
  /\ border (self (exec (Shift FieldShiftLeft ;; Shift FieldShiftRight) term_ready hello_field))
     = BoxStyleASCII
  /\ y (self (exec (Shift FieldShiftUp ;; Shift FieldShiftDown) term_ready hello_field)) = 5
  /\ border (self (exec (Shift FieldShiftUp ;; Shift FieldShiftDown) term_ready hello_field))
     = BoxStyleASCII.
Proof.
  assert (Hv : valid_field hello_field).
  { unfold valid_field, is_int, recognized, minInt, maxInt, intSize. simpl.
    repeat split; lia. }
  split; [reflexivity|]. split; [exact Hv|].
  exact (Shift_there_and_back term_ready hello_field eq_refl Hv).
Defined.

(** C10: for a direction that is none of Left, Right, Up, Down,
    [Shift dir] leaves the stored row and column as they were, and does
    what erasing the border, redrawing it in the stored style and
    rewriting the stored text do in sequence at that position. *)
Theorem Shift_unknown_direction (dir : shiftDir) (t : tb.Terminal) (f : field) :
  dir <> FieldShiftLeft -> dir <> FieldShiftRight ->
  dir <> FieldShiftUp -> dir <> FieldShiftDown ->
  y (self (exec (Shift dir) t f)) = y f
  /\ x (self (exec (Shift dir) t f)) = x f
  /\ exec (Shift dir) t f
     = exec (DrawBox boxStyleClear ;; DrawBox (border f) ;; Update (text f)) t f.
Proof.
  intros HL HR HU HD.
  pose proof (step_dir_other dir f HL HR HU HD) as Hstep.
  pose proof Clear_glyphs as HC.
  unfold exec.
  destruct (tb.IsInit t) eqn:E.
  - destruct (boxRunesMap !! border f) as [g|] eqn:Hg.
    + rewrite (Shift_init _ _ _ _ E Hg), Hstep.
      split; [reflexivity|]. split; [reflexivity|].
      repeat run_step. rewrite Update_init by init_side.
      cbn [snd]. rewrite !logged_app, <- !app_assoc.
      now destruct f.
    + rewrite (Shift_init_unknown _ _ _ E Hg), Hstep.
      split; [reflexivity|]. split; [reflexivity|].
      repeat run_step. rewrite Update_init by init_side.
      cbn [snd]. rewrite !logged_app, <- !app_assoc.
      reflexivity.
  - rewrite (Shift_not_init _ _ _ E), Hstep.
    split; [reflexivity|]. split; [reflexivity|].
    repeat run_step. now rewrite Update_not_init.
Qed.

Lemma Shift_unknown_direction_witness :
  y (self (exec (Shift 9%N) term_ready hello_field)) = 5
  /\ x (self (exec (Shift 9%N) term_ready hello_field)) = 10
  /\ exec (Shift 9%N) term_ready hello_field
     = exec (DrawBox boxStyleClear ;; DrawBox BoxStyleASCII ;; Update "hello")
         term_ready hello_field.
Proof.
  apply (Shift_unknown_direction 9%N term_ready hello_field); discriminate.
Defined.

(** ** Operations on a backend that is not initialized *)

(** C3, as stated, fails: on a backend that is not initialized, [Loc]
    still stores the new row and column. *)
Lemma Loc_not_initialized_moves :
  tb.IsInit term_closed = false
  /\ y (self (exec (Loc 6 11) term_closed hello_field)) <> y hello_field
  /\ x (self (exec (Loc 6 11) term_closed hello_field)) <> x hello_field.
Proof. repeat split; discriminate. Qed.

(** C3, amended: on a backend that is not initialized, [Update] and
    [DrawBox] return the error "Term not Initialized" and change neither
    the field nor the backend; [Loc] and [Shift], which return nothing,
    draw nothing and keep text, border style and width, but store the
    new position all the same: [Loc] the row and column it was given,
    [Shift] the position one cell away in its direction. *)
Theorem not_initialized_operations (t : tb.Terminal) (f : field) :
  tb.IsInit t = false ->
  (forall s,
      result (Update s) t f = Some (Errorf "Term not Initialized")
      /\ exec (Update s) t f = mkWorld t f)
  /\ (forall style,
      result (DrawBox style) t f = Some (Errorf "Term not Initialized")
      /\ exec (DrawBox style) t f = mkWorld t f)
  /\ (forall r c,
      let w := exec (Loc r c) t f in
      term w = t /\ text (self w) = text f /\ border (self w) = border f
      /\ len (self w) = len f /\ y (self w) = r /\ x (self w) = c)
  /\ (forall dir,
      let w := exec (Shift dir) t f in
      term w = t /\ text (self w) = text f /\ border (self w) = border f
      /\ len (self w) = len f /\ self w = step_dir dir f).
Proof.
  intros E. unfold result, exec. repeat split.
  all: try (now rewrite Update_not_init).
  all: try (now rewrite DrawBox_not_init).
  all: try (now rewrite Loc_not_init).
  all: rewrite Shift_not_init by assumption; simpl;
    try reflexivity; apply step_dir_frame.
Qed.

Lemma not_initialized_operations_witness :
  tb.IsInit term_closed = false
  /\ result (Update "hi") term_closed hello_field
     = Some (Errorf "Term not Initialized")
  /\ exec (DrawBox BoxStyleUnicode) term_closed hello_field
     = mkWorld term_closed hello_field
  /\ self (exec (Loc 6 11) term_closed hello_field)
     = mkfield 11 6 8 BoxStyleASCII "hello"
  /\ self (exec (Shift FieldShiftDown) term_closed hello_field)
     = mkfield 10 6 8 BoxStyleASCII "hello".
Proof.
  pose proof (not_initialized_operations term_closed hello_field eq_refl)
    as (HU & HD & HL & HS).
  split; [reflexivity|].
  split; [exact (proj1 (HU "hi"))|].
  split; [exact (proj2 (HD BoxStyleUnicode))|].
  split; [reflexivity|].
  destruct (HS FieldShiftDown) as (_ & _ & _ & _ & ->). reflexivity.
Defined.

(** ** The stored border style *)

(** C2, as stated, fails: the Field that [NewField] returns has the
    internal Clear style as its stored border style. *)
Lemma NewField_border_is_Clear :
  exists F t',
    NewField 5 10 8 "hello" term_ready = (Some F, None, t')
    /\ border (embedded F) = boxStyleClear.
Proof. eexists _, _. split; reflexivity. Qed.

Lemma NewField_border y0 x0 len0 text0 t F t' :
  NewField y0 x0 len0 text0 t = (Some F, None, t') ->
  border (embedded F) = boxStyleClear.
Proof.
  unfold NewField. destruct (tb.IsInit t) eqn:E.
  - rewrite Update_init by assumption. intros H. injection H as <- _. reflexivity.
  - rewrite Update_not_init by assumption. discriminate.
Qed.

Lemma public_recognized s : public_style s -> recognized s.
Proof. unfold public_style, recognized. tauto. Qed.

Lemma public_not_Clear s : public_style s -> s <> boxStyleClear.
Proof. intros [-> | [-> | ->]]; discriminate. Qed.

Lemma Loc_border r c t f : recognized (border f) ->
  border (self (exec (Loc r c) t f)) = border f.
Proof.
  intros Hb. destruct (recognized_lookup _ Hb) as [g Hg]. unfold exec.
  destruct (tb.IsInit t) eqn:E.
  - now rewrite (Loc_init _ _ _ _ _ E Hg).
  - now rewrite Loc_not_init.
Qed.

Lemma Shift_border dir t f : recognized (border f) ->
  border (self (exec (Shift dir) t f)) = border f.
Proof.
  intros Hb. destruct (recognized_lookup _ Hb) as [g Hg]. unfold exec.
  destruct (tb.IsInit t) eqn:E.
  - rewrite (Shift_init _ _ _ _ E Hg). apply step_dir_frame.
  - rewrite Shift_not_init by assumption. apply step_dir_frame.
Qed.

Lemma Update_border s t f : border (self (exec (Update s) t f)) = border f.
Proof.
  unfold exec. destruct (tb.IsInit t) eqn:E.
  - now rewrite Update_init.
  - now rewrite Update_not_init.
Qed.

Lemma DrawBox_border style t f : recognized style ->
  border (self (exec (DrawBox style) t f))
  = if tb.IsInit t then style else border f.
Proof.
  intros Hs. destruct (recognized_lookup _ Hs) as [g Hg]. unfold exec.
  destruct (tb.IsInit t) eqn:E.
  - now rewrite (DrawBox_init _ _ _ _ E Hg).
  - now rewrite DrawBox_not_init.
Qed.

(** C2, amended: [NewField] returns a Field whose stored border style is
    Clear, the zero value.  A successful [DrawBox] with a public style
    stores that style, and once the stored style is a public one (None,
    ASCII or Unicode) it is a public one, never Clear, after every
    [Loc], [Shift], [Update] and [DrawBox] with a public style: the
    first three leave it as it was. *)
Theorem border_style_after_operations (t : tb.Terminal) (f : field) :
  public_style (border f) ->
  (forall r c, border (self (exec (Loc r c) t f)) = border f)
  /\ (forall dir, border (self (exec (Shift dir) t f)) = border f)
  /\ (forall s, border (self (exec (Update s) t f)) = border f)
  /\ (forall style, public_style style ->
        public_style (border (self (exec (DrawBox style) t f)))
        /\ border (self (exec (DrawBox style) t f)) <> boxStyleClear)
  /\ (forall style f', public_style style -> tb.IsInit t = true ->
        border (self (exec (DrawBox style) t f')) = style)
  /\ (forall y0 x0 len0 text0 F t',
        NewField y0 x0 len0 text0 t = (Some F, None, t') ->
        border (embedded F) = boxStyleClear).
Proof.
  intros Hb. pose proof (public_recognized _ Hb) as Hr.
  split; [intros; now apply Loc_border|].
  split; [intros; now apply Shift_border|].
  split; [intros; apply Update_border|].
  split; [|split].
  - intros style Hs.
    assert (Hp : public_style (border (self (exec (DrawBox style) t f)))).
    { rewrite DrawBox_border by now apply public_recognized.
      now destruct (tb.IsInit t). }
    split; [exact Hp | now apply public_not_Clear].
  - intros style f' Hs E.
    rewrite DrawBox_border by now apply public_recognized. now rewrite E.
  - intros. eapply NewField_border; eassumption.
Qed.

Lemma border_style_after_operations_witness :
  public_style (border hello_field)
  /\ border (self (exec (Loc 6 11) term_ready hello_field)) = BoxStyleASCII
  /\ border (self (exec (Shift FieldShiftUp) term_ready hello_field)) = BoxStyleASCII
  /\ border (self (exec (DrawBox BoxStyleUnicode) term_ready hello_field))
     <> boxStyleClear.
Proof.
  assert (Hp : public_style (border hello_field)) by (right; left; reflexivity).
  assert (Hu : public_style BoxStyleUnicode) by (right; right; reflexivity).
  pose proof (border_style_after_operations term_ready hello_field Hp)
    as (HL & HS & _ & HD & _).
  split; [exact Hp|].
  split; [exact (HL 6 11)|].
  split; [exact (HS FieldShiftUp)|].
  exact (proj2 (HD BoxStyleUnicode Hu)).
Defined.

(** ** Reposition *)

(** Whatever the border, an initialized [Loc] ends with the blanking
    string as the stored text: its first [Update] stored it, and the
    last one rewrites what is stored. *)
Lemma Loc_stores_blank r c t f : tb.IsInit t = true ->
  text (self (exec (Loc r c) t f)) = blank f.
Proof.
  intros E. unfold exec.
  destruct (boxRunesMap !! border f) as [g|] eqn:Hg.
  - now rewrite (Loc_init _ _ _ _ _ E Hg).
  - now rewrite (Loc_init_unknown _ _ _ _ E Hg).
Qed.

Lemma Loc_position r c t f :
  y (self (exec (Loc r c) t f)) = r /\ x (self (exec (Loc r c) t f)) = c.
Proof.
  unfold exec. destruct (tb.IsInit t) eqn:E.
  - destruct (boxRunesMap !! border f) as [g|] eqn:Hg.
    + now rewrite (Loc_init _ _ _ _ _ E Hg).
    + now rewrite (Loc_init_unknown _ _ _ _ E Hg).
  - now rewrite Loc_not_init.
Qed.

(** C1: the code does not keep the text.  On an initialized backend,
    [Loc 6 11] on the field at row 5, column 10, width 8, ASCII border,
    text "hello" stores eight spaces as the text; the border style and
    the new position are stored as expected, and every cell the call
    sets holds a space or a border glyph, none a letter of "hello". *)
Theorem Loc_replaces_text_by_blanks :
  let f' := self (exec (Loc 6 11) term_ready hello_field) in
  text hello_field = "hello"
  /\ text f' = "        "
  /\ text f' <> text hello_field
  /\ border f' = border hello_field
  /\ (y f', x f') = (6, 11)
  /\ forallb (fun c => is_blank_or_ascii_border (snd c))
       (written (Loc 6 11) term_ready hello_field) = true.
Proof.
  cbv zeta. split; [reflexivity|].
  split; [rewrite Loc_stores_blank by reflexivity; reflexivity|].
  split; [rewrite Loc_stores_blank by reflexivity; discriminate|].
  split; [apply Loc_border; unfold recognized; simpl; lia|].
  split; [now destruct (Loc_position 6 11 term_ready hello_field) as [-> ->]|].
  vm_compute. reflexivity.
Qed.

(** ** Text placement *)

Lemma range_from_ascii l : Forall (fun b => b < runeSelf) l ->
  forall i, range_from i 0 l = indexed i l.
Proof.
  induction 1 as [|b l Hb _ IH]; intros i; [reflexivity|]. simpl.
  destruct (Z.ltb_spec b runeSelf); [|lia]. now rewrite IH.
Qed.

(** On text made of ASCII bytes only, [Update] does put the [i]-th
    character in the cell [i] columns right of the anchor. *)
Lemma Update_ascii s t f :
  tb.IsInit t = true -> Forall (fun b => b < runeSelf) (bytes s) ->
  written (Update s) t f
  = map (fun '(i, b) => ((x f + i)%goint, y f, b)) (indexed 0 (bytes s)).
Proof.
  intros E Hs.
  rewrite (written_logged _ _ _ (text_calls f s ++ [tb.CFlush]))
    by (unfold exec; now rewrite Update_init).
  rewrite cells_app, app_nil_r. unfold text_calls, range_string.
  rewrite range_from_ascii by assumption.
  induction (indexed 0 (bytes s)) as [|[i b] l IH]; [reflexivity|].
  simpl. now rewrite IH.
Qed.

(** C4: the code places a rune by its byte offset, not by its position
    among the runes.  The string [e_acute_a] is the bytes C3 A9 61 and two runes; on an
    initialized backend, [Update] on the field anchored at column 10,
    row 5 sets the e-acute at column 10 and a at column 12, so the rune of index 1
    is not in cell (column+1, row), which is left as it was. *)
Theorem Update_places_runes_by_byte_offset :
  range_string e_acute_a = [(0, 233); (2, 97)]
  /\ written (Update e_acute_a) term_ready hello_field
     = [(10, 5, 233); (12, 5, 97)]
  /\ ~ In (x hello_field + 1, y hello_field, 97)
          (written (Update e_acute_a) term_ready hello_field).
Proof.
  assert (Hw : written (Update e_acute_a) term_ready hello_field
               = [(10, 5, 233); (12, 5, 97)]) by (vm_compute; reflexivity).
  split; [vm_compute; reflexivity|]. split; [exact Hw|].
  rewrite Hw. simpl. intros [H | [H | []]]; discriminate H.
Qed.

(** ** Fields the package can build

    [valid_field] holds of what [NewField] returns and is kept by every
    method, so it is no restriction on the fields a caller can hold. *)

Lemma Loc_self r c t f : recognized (border f) ->
  self (exec (Loc r c) t f)
  = mkfield c r (len f) (border f) (if tb.IsInit t then blank f else text f).
Proof.
  intros Hb. destruct (recognized_lookup _ Hb) as [g Hg]. unfold exec.
  destruct (tb.IsInit t) eqn:E.
  - now rewrite (Loc_init _ _ _ _ _ E Hg).
  - now rewrite Loc_not_init.
Qed.

Lemma Shift_self dir t f : recognized (border f) ->
  self (exec (Shift dir) t f) = step_dir dir f.
Proof.
  intros Hb. destruct (recognized_lookup _ Hb) as [g Hg]. unfold exec.
  destruct (tb.IsInit t) eqn:E.
  - now rewrite (Shift_init _ _ _ _ E Hg).
  - now rewrite Shift_not_init.
Qed.

Lemma NewField_valid y0 x0 len0 text0 t F t' :
  is_int y0 -> is_int x0 -> is_int len0 ->
  NewField y0 x0 len0 text0 t = (Some F, None, t') ->
  valid_field (embedded F).
Proof.
  intros Hy Hx Hl. unfold NewField. destruct (tb.IsInit t) eqn:E.
  - rewrite Update_init by assumption. intros H. injection H as <- _.
    unfold valid_field. simpl. split; [|split; [|split]]; try assumption.
    now left.
  - rewrite Update_not_init by assumption. discriminate.
Qed.

Lemma Update_valid s t f :
  valid_field f -> valid_field (self (exec (Update s) t f)).
Proof.
  intros Hf. unfold exec. destruct (tb.IsInit t) eqn:E.
  - now rewrite Update_init.
  - now rewrite Update_not_init.
Qed.

Lemma DrawBox_valid style t f :
  valid_field f -> valid_field (self (exec (DrawBox style) t f)).
Proof.
  intros Hf. unfold exec. destruct (tb.IsInit t) eqn:E.
  - destruct (boxRunesMap !! style) as [g|] eqn:Hg.
    + rewrite (DrawBox_init _ _ _ _ E Hg).
      destruct Hf as (Hx & Hy & Hl & _).
      unfold valid_field. simpl. split; [|split; [|split]]; try assumption.
      eapply lookup_recognized, Hg.
    + now rewrite DrawBox_unknown.
  - now rewrite DrawBox_not_init.
Qed.

Lemma Loc_valid r c t f :
  is_int r -> is_int c ->
  valid_field f -> valid_field (self (exec (Loc r c) t f)).
Proof.
  intros Hr Hc (Hx & Hy & Hl & Hb). rewrite Loc_self by assumption.
  unfold valid_field. simpl. split; [|split; [|split]]; assumption.
Qed.

Lemma Shift_valid dir t f :
  valid_field f -> valid_field (self (exec (Shift dir) t f)).
Proof.
  intros (Hx & Hy & Hl & Hb). rewrite Shift_self by assumption.
  unfold step_dir, valid_field, moved.
  repeat match goal with |- context [N.eqb ?a ?b] => destruct (N.eqb a b) end;
    simpl; (split; [|split; [|split]]); try assumption; apply wrap_is_int.
Qed.

(** On a field of representable width, the fuel [for_lt] gives the
    border loop of [DrawBox] is enough: more of it changes nothing. *)
Lemma DrawBox_loop_fuel (n : Z) (body : Z -> M unit) (k : nat) (w : World) :
  for_loop (Z.to_nat ((n + 1)%goint - 0) + k) 0 (n + 1)%goint body w
  = for_lt 0 (n + 1)%goint body w.
Proof.
  unfold for_lt. pose proof (wrap_is_int (n + 1)) as [Hlo Hhi].
  apply for_loop_fuel; unfold int_add, minInt, intSize in *; lia.
Qed.

(** * Further properties of the package *)

(** ** Sequencing *)

Lemma exec_bind {A B} (m : M A) (k : A -> M B) t f :
  exec (bind m k) t f
  = exec (k (result m t f)) (term (exec m t f)) (self (exec m t f)).
Proof.
  unfold exec, result, bind.
  destruct (m (mkWorld t f)) as [a [t' f']]. reflexivity.
Qed.

Lemma result_bind {A B} (m : M A) (k : A -> M B) t f :
  result (bind m k) t f
  = result (k (result m t f)) (term (exec m t f)) (self (exec m t f)).
Proof.
  unfold exec, result, bind.
  destruct (m (mkWorld t f)) as [a [t' f']]. reflexivity.
Qed.

Lemma Update_self s t f :
  self (exec (Update s) t f) = if tb.IsInit t then with_text f s else f.
Proof.
  unfold exec. destruct (tb.IsInit t) eqn:E.
  - now rewrite Update_init.
  - now rewrite Update_not_init.
Qed.

Lemma Update_term_IsInit s t f :
  tb.IsInit (term (exec (Update s) t f)) = tb.IsInit t.
Proof.
  unfold exec. destruct (tb.IsInit t) eqn:E.
  - now rewrite Update_init.
  - now rewrite Update_not_init.
Qed.

Lemma DrawBox_term_IsInit style t f :
  tb.IsInit (term (exec (DrawBox style) t f)) = tb.IsInit t.
Proof.
  unfold exec. destruct (tb.IsInit t) eqn:E.
  - destruct (boxRunesMap !! style) as [g|] eqn:Hg.
    + now rewrite (DrawBox_init _ _ _ _ E Hg).
    + now rewrite DrawBox_unknown.
  - now rewrite DrawBox_not_init.
Qed.

Lemma Loc_term_IsInit r c t f :
  tb.IsInit (term (exec (Loc r c) t f)) = tb.IsInit t.
Proof.
  unfold exec. destruct (tb.IsInit t) eqn:E.
  - destruct (boxRunesMap !! border f) as [g|] eqn:Hg.
    + now rewrite (Loc_init _ _ _ _ _ E Hg).
    + now rewrite (Loc_init_unknown _ _ _ _ E Hg).
  - now rewrite Loc_not_init.
Qed.

Lemma Shift_term_IsInit dir t f :
  tb.IsInit (term (exec (Shift dir) t f)) = tb.IsInit t.
Proof.
  unfold exec. destruct (tb.IsInit t) eqn:E.
  - destruct (boxRunesMap !! border f) as [g|] eqn:Hg.
    + now rewrite (Shift_init _ _ _ _ E Hg).
    + now rewrite (Shift_init_unknown _ _ _ E Hg).
  - now rewrite Shift_not_init.
Qed.

(** ** The width *)

(** X1: no method changes the width of a field: after [Update],
    [DrawBox], [Loc] and [Shift], with any argument, on any field and in
    any backend state, [len] is what it was. *)
Theorem len_never_changes (t : tb.Terminal) (f : field) :
  (forall s, len (self (exec (Update s) t f)) = len f)
  /\ (forall style, len (self (exec (DrawBox style) t f)) = len f)
  /\ (forall r c, len (self (exec (Loc r c) t f)) = len f)
  /\ (forall dir, len (self (exec (Shift dir) t f)) = len f).
Proof.
  unfold exec. repeat split; intros.
  - destruct (tb.IsInit t) eqn:E;
      [now rewrite Update_init | now rewrite Update_not_init].
  - destruct (tb.IsInit t) eqn:E; [|now rewrite DrawBox_not_init].
    destruct (boxRunesMap !! style) as [g|] eqn:Hg.
    + now rewrite (DrawBox_init _ _ _ _ E Hg).
    + now rewrite DrawBox_unknown.
  - destruct (tb.IsInit t) eqn:E; [|now rewrite Loc_not_init].
    destruct (boxRunesMap !! border f) as [g|] eqn:Hg.
    + now rewrite (Loc_init _ _ _ _ _ E Hg).
    + now rewrite (Loc_init_unknown _ _ _ _ E Hg).
  - destruct (tb.IsInit t) eqn:E.
    + destruct (boxRunesMap !! border f) as [g|] eqn:Hg.
      * rewrite (Shift_init _ _ _ _ E Hg). apply step_dir_frame.
      * rewrite (Shift_init_unknown _ _ _ E Hg). apply step_dir_frame.
    + rewrite Shift_not_init by assumption. apply step_dir_frame.
Qed.

(** ** Construction on a backend that is not initialized *)

(** X2: on a backend that is not initialized, [NewField] returns no
    Field and the error "Term not Initialized", whatever its arguments,
    and makes no call to the backend. *)
Theorem NewField_not_initialized (y0 x0 len0 : Z) (text0 : string)
    (t : tb.Terminal) :
  tb.IsInit t = false ->
  NewField y0 x0 len0 text0 t = (None, Some (Errorf "Term not Initialized"), t).
Proof.
  intros E. unfold NewField. now rewrite Update_not_init.
Qed.

Lemma NewField_not_initialized_witness :
  tb.IsInit term_closed = false
  /\ NewField 5 10 8 "hello" term_closed
     = (None, Some (Errorf "Term not Initialized"), term_closed).
Proof.
  split; [reflexivity|].
  apply (NewField_not_initialized 5 10 8 "hello" term_closed). reflexivity.
Defined.

(** ** Reading the position back *)

(** X3: [Row] and [Column] called after [Loc r c] return [r] and [c],
    on any field and in any backend state, the uninitialized one
    included. *)
Theorem Row_Column_after_Loc (r c : Z) (t : tb.Terminal) (f : field) :
  result (Loc r c ;; Row) t f = r /\ result (Loc r c ;; Column) t f = c.
Proof.
  rewrite !result_bind. unfold Row, Column, result, bind, get, ret. simpl.
  apply Loc_position.
Qed.

(** ** The glyph table *)

(** X4: the table built by [init] has exactly the four style constants
    as keys, and each entry holds six glyphs, so the indices 0 to 5 that
    [DrawBox] reads exist for every style that passes its check. *)
Theorem boxRunesMap_keys_and_sizes (style : boxStyle) :
  (is_Some (boxRunesMap !! style) <-> recognized style)
  /\ (forall g, boxRunesMap !! style = Some g -> length g = 6%nat).
Proof.
  split; [split|].
  - intros [g Hg]. eapply lookup_recognized, Hg.
  - apply recognized_lookup.
  - apply six_glyphs.
Qed.

(** ** Shift, in every backend state *)

Lemma int_sub_one a : is_int a ->
  (a - 1)%goint = if a =? minInt then maxInt else a - 1.
Proof.
  intros Ha. unfold int_sub. destruct (Z.eqb_spec a minInt) as [-> | Hne].
  - reflexivity.
  - apply wrap_id. unfold is_int in *. lia.
Qed.

Lemma int_add_one a : is_int a ->
  (a + 1)%goint = if a =? maxInt then minInt else a + 1.
Proof.
  intros Ha. unfold int_add. destruct (Z.eqb_spec a maxInt) as [-> | Hne].
  - reflexivity.
  - apply wrap_id. unfold is_int in *. lia.
Qed.

Lemma step_dir_opposite dir f : is_int (x f) -> is_int (y f) ->
  step_dir (opposite dir) (step_dir dir f) = f.
Proof.
  intros Hx Hy. destruct f as [fx fy fl fb ft]. simpl in *.
  unfold opposite, step_dir.
  destruct (N.eqb_spec dir FieldShiftLeft) as [-> | HL].
  { unfold moved. simpl. now rewrite int_sub_add. }
  destruct (N.eqb_spec dir FieldShiftRight) as [-> | HR].
  { unfold moved. simpl. now rewrite int_add_sub. }
  destruct (N.eqb_spec dir FieldShiftUp) as [-> | HU].
  { unfold moved. simpl. now rewrite int_sub_add. }
  destruct (N.eqb_spec dir FieldShiftDown) as [-> | HD].
  { unfold moved. simpl. now rewrite int_add_sub. }
  apply N.eqb_neq in HL, HR, HU, HD. now rewrite HL, HR, HU, HD.
Qed.

(** X5: a [Shift] followed by the [Shift] in the opposite direction
    gives back the whole field (position, width, border style and text),
    in either order of the two directions, at the edges of the [int]
    range too, and whether or not the backend is initialized. *)
Theorem Shift_then_opposite (dir : shiftDir) (t : tb.Terminal) (f : field) :
  valid_field f ->
  self (exec (Shift dir ;; Shift (opposite dir)) t f) = f.
Proof.
  intros (Hx & Hy & _ & Hb).
  rewrite exec_bind, Shift_self.
  - rewrite Shift_self by assumption. now apply step_dir_opposite.
  - rewrite Shift_self by assumption.
    destruct (step_dir_frame dir f) as (_ & -> & _). assumption.
Qed.

Lemma Shift_then_opposite_witness :
  valid_field (mkfield maxInt 5 8 BoxStyleASCII "hello")
  /\ self (exec (Shift FieldShiftRight ;; Shift (opposite FieldShiftRight))
             term_closed (mkfield maxInt 5 8 BoxStyleASCII "hello"))
     = mkfield maxInt 5 8 BoxStyleASCII "hello".
Proof.
  assert (Hv : valid_field (mkfield maxInt 5 8 BoxStyleASCII "hello")).
  { unfold valid_field, is_int, recognized, minInt, maxInt, intSize. simpl.
    repeat split; lia. }
  split; [exact Hv|].
  exact (Shift_then_opposite FieldShiftRight term_closed _ Hv).
Defined.

(** X6: [Shift] moves a field by one cell: Left and Right change the
    column by one and keep the row, Up and Down change the row by one
    and keep the column.  At the edge of the [int] range the coordinate
    wraps around to the other end. *)
Theorem Shift_moves_one_cell (t : tb.Terminal) (f : field) :
  valid_field f ->
  let pos dir := (x (self (exec (Shift dir) t f)), y (self (exec (Shift dir) t f))) in
  pos FieldShiftLeft = ((if x f =? minInt then maxInt else x f - 1), y f)
  /\ pos FieldShiftRight = ((if x f =? maxInt then minInt else x f + 1), y f)
  /\ pos FieldShiftUp = (x f, (if y f =? minInt then maxInt else y f - 1))
  /\ pos FieldShiftDown = (x f, (if y f =? maxInt then minInt else y f + 1)).
Proof.
  intros (Hx & Hy & _ & Hb). cbv beta zeta.
  rewrite !Shift_self by assumption.
  unfold step_dir, moved. simpl.
  now rewrite !int_sub_one, !int_add_one by assumption.
Qed.

Lemma Shift_moves_one_cell_witness :
  valid_field hello_field
  /\ (x (self (exec (Shift FieldShiftDown) term_ready hello_field)),
      y (self (exec (Shift FieldShiftDown) term_ready hello_field))) = (10, 6).
Proof.
  assert (Hv : valid_field hello_field).
  { unfold valid_field, is_int, recognized, minInt, maxInt, intSize. simpl.
    repeat split; lia. }
  split; [exact Hv|].
  exact (proj2 (proj2 (proj2 (Shift_moves_one_cell term_ready hello_field Hv)))).
Defined.

(** ** What the moves draw *)

Lemma cells_flush_app l : cells (tb.CFlush :: l) = cells l.
Proof. reflexivity. Qed.

Lemma written_Update s t f : tb.IsInit t = true ->
  written (Update s) t f = cells (text_calls f s).
Proof.
  intros E.
  rewrite (written_logged _ _ _ (text_calls f s ++ [tb.CFlush]))
    by (unfold exec; now rewrite Update_init).
  now rewrite cells_app, app_nil_r.
Qed.

Lemma written_DrawBox style g t f :
  tb.IsInit t = true -> boxRunesMap !! style = Some g ->
  written (DrawBox style) t f = cells (box_calls f g).
Proof.
  intros E Hg.
  rewrite (written_logged _ _ _ (box_calls f g ++ [tb.CFlush]))
    by (unfold exec; now rewrite (DrawBox_init _ _ _ _ E Hg)).
  now rewrite cells_app, app_nil_r.
Qed.



(** X8: on an initialized backend, [Loc] sets, in this order, the cells
    that writing the blanking string sets at the old position, the cells
    that erasing the border sets at the old position, the cells that
    drawing the stored border sets at the new position, and the cells
    that writing the blanking string sets at the new position. *)
Theorem Loc_draws (r c : Z) (t : tb.Terminal) (f : field) :
  tb.IsInit t = true ->
  recognized (border f) ->
  written (Loc r c) t f
  = written (Update (blank f)) t f
    ++ written (DrawBox boxStyleClear) t f
    ++ written (DrawBox (border f)) t (moved f c r)
    ++ written (Update (blank f)) t (moved f c r).
Proof.
  intros E Hb. destruct (recognized_lookup _ Hb) as [g Hg].
  rewrite (written_DrawBox _ _ _ _ E Clear_glyphs),
          (written_DrawBox _ _ _ _ E Hg), !(written_Update _ _ _ E).
  erewrite written_logged
    by (unfold exec; rewrite (Loc_init _ _ _ _ _ E Hg); reflexivity).
  rewrite !cells_app. change (cells [tb.CFlush]) with (@nil (Z * Z * rune)).
  cbn [app]. now rewrite app_nil_r.
Qed.

Lemma Loc_draws_witness :
  tb.IsInit term_ready = true /\ recognized (border hello_field)
  /\ written (Loc 6 11) term_ready hello_field
     = written (Update "        ") term_ready hello_field
       ++ written (DrawBox boxStyleClear) term_ready hello_field
       ++ written (DrawBox BoxStyleASCII) term_ready
            (mkfield 11 6 8 BoxStyleASCII "hello")
       ++ written (Update "        ") term_ready
            (mkfield 11 6 8 BoxStyleASCII "hello").
Proof.
  assert (Hb : recognized (border hello_field)) by (unfold recognized; simpl; lia).
  split; [reflexivity|]. split; [exact Hb|].
  exact (Loc_draws 6 11 term_ready hello_field eq_refl Hb).
Defined.

(** X9: the field after two [Loc] calls is the field after the second
    one alone, in every backend state. *)
Theorem Loc_last_wins (r1 c1 r2 c2 : Z) (t : tb.Terminal) (f : field) :
  recognized (border f) ->
  self (exec (Loc r1 c1 ;; Loc r2 c2) t f) = self (exec (Loc r2 c2) t f).
Proof.
  intros Hb. rewrite exec_bind, Loc_self.
  - rewrite Loc_term_IsInit, !Loc_self by assumption. simpl.
    unfold blank. simpl. now destruct (tb.IsInit t).
  - now rewrite Loc_self.
Qed.

Lemma Loc_last_wins_witness :
  recognized (border hello_field)
  /\ self (exec (Loc 1 2 ;; Loc 6 11) term_ready hello_field)
     = self (exec (Loc 6 11) term_ready hello_field).
Proof.
  assert (Hb : recognized (border hello_field)) by (unfold recognized; simpl; lia).
  split; [exact Hb|].
  exact (Loc_last_wins 1 2 6 11 term_ready hello_field Hb).
Defined.

(** ** The blanking string of [Loc] *)

Lemma spaces_snoc k : (spaces k ++ " ")%string = spaces (S k).
Proof.
  induction k as [|k IH]; [reflexivity|].
  change (String " " (spaces k ++ " ")%string = String " " (spaces (S k))).
  now rewrite IH.
Qed.

Lemma blank_spaces f : -1000000 <= len f <= 1000000 ->
  blank f = spaces (Z.to_nat (Z.max 1 (Z.abs (len f)))).
Proof.
  intros Hl. unfold blank, Sprintf_star_s.
  assert (Hsmall : tooLarge (len f) = false).
  { unfold tooLarge. apply orb_false_intro; apply Z.ltb_ge; lia. }
  rewrite Hsmall. change (RuneCountInString " ") with 1.
  destruct (Z.leb_spec (Z.abs (len f) - 1) 0) as [Hle | Hgt].
  - replace (Z.max 1 (Z.abs (len f))) with 1 by lia. reflexivity.
  - replace (Z.max 1 (Z.abs (len f))) with (Z.abs (len f)) by lia.
    replace (Z.to_nat (Z.abs (len f)))
      with (S (Z.to_nat (Z.abs (len f) - 1))) by lia.
    destruct (len f <? 0); [reflexivity | apply spaces_snoc].
Qed.

Lemma bytes_spaces k : bytes (spaces k) = repeat 32 k.
Proof. induction k as [|k IH]; [reflexivity|]. simpl. now rewrite IH. Qed.

Lemma cells_of_spaces f k i :
  cells (map (fun '(j, c) => set_cell (x f + j)%goint (y f) c)
           (indexed i (repeat 32 k)))
  = map (fun j => ((x f + j)%goint, y f, 32)) (seqZ i (Z.of_nat k)).
Proof.
  revert i. induction k as [|k IH]; intros i; [reflexivity|].
  rewrite seqZ_cons by lia. simpl repeat. simpl indexed. simpl map. simpl cells.
  rewrite IH. do 3 f_equal; lia.
Qed.

Lemma text_calls_spaces f k :
  cells (text_calls f (spaces k))
  = map (fun j => ((x f + j)%goint, y f, 32)) (seqZ 0 (Z.of_nat k)).
Proof.
  unfold text_calls, range_string. rewrite bytes_spaces.
  rewrite range_from_ascii; [apply cells_of_spaces|].
  apply List.Forall_forall. intros b Hb. apply repeat_spec in Hb. subst b.
  reflexivity.
Qed.

(** X10: on an initialized backend, for a width between minus one
    million and one million, [Loc] starts by writing a space into each of
    the [n] cells from the old anchor rightwards, where [n] is the
    absolute value of the width and at least 1 (so a field of width 0
    still has one cell blanked), and it leaves that string of [n] spaces
    as the stored text. *)
Theorem Loc_blanks_content_area (r c : Z) (t : tb.Terminal) (f : field) :
  tb.IsInit t = true ->
  -1000000 <= len f <= 1000000 ->
  let n := Z.max 1 (Z.abs (len f)) in
  take (Z.to_nat n) (written (Loc r c) t f)
  = map (fun i => ((x f + i)%goint, y f, 32)) (seqZ 0 n)
  /\ text (self (exec (Loc r c) t f)) = spaces (Z.to_nat n).
Proof.
  intros E Hl n. split.
  - assert (Hw : exists rest, written (Loc r c) t f
                              = cells (text_calls f (blank f)) ++ rest).
    { destruct (boxRunesMap !! border f) as [g|] eqn:Hg.
      - eexists. erewrite written_logged
          by (unfold exec; rewrite (Loc_init _ _ _ _ _ E Hg); reflexivity).
        rewrite cells_app. reflexivity.
      - eexists. erewrite written_logged
          by (unfold exec; rewrite (Loc_init_unknown _ _ _ _ E Hg); reflexivity).
        rewrite cells_app. reflexivity. }
    destruct Hw as [rest ->].
    rewrite blank_spaces by assumption. fold n.
    rewrite text_calls_spaces, Z2Nat.id by (unfold n; lia).
    apply take_app_length'. rewrite length_map, length_seqZ. reflexivity.
  - rewrite Loc_stores_blank by assumption. now apply blank_spaces.
Qed.

Lemma Loc_blanks_content_area_witness :
  tb.IsInit term_ready = true
  /\ -1000000 <= len (mkfield 10 5 0 BoxStyleASCII "hello") <= 1000000
  /\ take 1 (written (Loc 6 11) term_ready (mkfield 10 5 0 BoxStyleASCII "hello"))
     = [(10, 5, 32)]
  /\ text (self (exec (Loc 6 11) term_ready (mkfield 10 5 0 BoxStyleASCII "hello")))
     = " ".
Proof.
  assert (Hl : -1000000 <= len (mkfield 10 5 0 BoxStyleASCII "hello") <= 1000000)
    by (simpl; lia).
  split; [reflexivity|]. split; [exact Hl|].
  exact (Loc_blanks_content_area 6 11 term_ready
           (mkfield 10 5 0 BoxStyleASCII "hello") eq_refl Hl).
Defined.

(** X11: on an initialized backend, for a width beyond one million
    either way, the formatting of the blanking string refuses the width,
    and [Loc] leaves the text "%!(BADWIDTH) " in the field. *)
Theorem Loc_width_beyond_a_million (r c : Z) (t : tb.Terminal) (f : field) :
  tb.IsInit t = true ->
  1000000 < len f \/ len f < -1000000 ->
  text (self (exec (Loc r c) t f)) = "%!(BADWIDTH) ".
Proof.
  intros E Hl. rewrite Loc_stores_blank by assumption.
  unfold blank, Sprintf_star_s.
  assert (Hlarge : tooLarge (len f) = true).
  { unfold tooLarge. apply orb_true_intro.
    destruct Hl; [left | right]; apply Z.ltb_lt; lia. }
  now rewrite Hlarge.
Qed.

Lemma Loc_width_beyond_a_million_witness :
  tb.IsInit term_ready = true
  /\ (1000000 < len (mkfield 10 5 1000001 BoxStyleNone "hello")
      \/ len (mkfield 10 5 1000001 BoxStyleNone "hello") < -1000000)
  /\ text (self (exec (Loc 6 11) term_ready
                   (mkfield 10 5 1000001 BoxStyleNone "hello")))
     = "%!(BADWIDTH) ".
Proof.
  assert (Hl : 1000000 < len (mkfield 10 5 1000001 BoxStyleNone "hello")
               \/ len (mkfield 10 5 1000001 BoxStyleNone "hello") < -1000000)
    by (left; simpl; lia).
  split; [reflexivity|]. split; [exact Hl|].
  exact (Loc_width_beyond_a_million 6 11 term_ready _ eq_refl Hl).
Defined.

(** ** Successive updates *)

(** X12: after two [Update] calls the field is what the second call
    alone leaves, in every backend state; on an initialized backend the
    two calls set the cells of the first text and then the cells of the
    second, and nothing else: no cell of a longer first text is
    blanked. *)
Theorem Update_twice (s1 s2 : string) (t : tb.Terminal) (f : field) :
  self (exec (Update s1 ;; Update s2) t f) = self (exec (Update s2) t f)
  /\ (tb.IsInit t = true ->
      written (Update s1 ;; Update s2) t f
      = written (Update s1) t f ++ written (Update s2) t f).
Proof.
  split.
  - rewrite exec_bind, !Update_self, Update_term_IsInit.
    now destruct (tb.IsInit t).
  - intros E. rewrite !(written_Update _ _ _ E).
    erewrite written_logged; cycle 1.
    { rewrite exec_bind. unfold exec. rewrite (Update_init s1 _ _ E). simpl.
      rewrite Update_init by exact E. simpl. rewrite logged_app. reflexivity. }
    rewrite !cells_app. change (cells [tb.CFlush]) with (@nil (Z * Z * rune)).
    now rewrite !app_nil_r.
Qed.

Lemma Update_twice_witness :
  self (exec (Update "hello" ;; Update "hi") term_ready hello_field)
  = mkfield 10 5 8 BoxStyleASCII "hi"
  /\ written (Update "hello" ;; Update "hi") term_ready hello_field
     = written (Update "hello") term_ready hello_field
       ++ written (Update "hi") term_ready hello_field.
Proof.
  pose proof (Update_twice "hello" "hi" term_ready hello_field) as [H1 H2].
  split; [exact H1 | exact (H2 eq_refl)].
Defined.

(** ** Where [Update] writes *)

Lemma range_from_bounds l : forall i skip k r,
  In (k, r) (range_from i skip l) ->
  i + Z.of_nat skip <= k < i + Z.of_nat (length l).
Proof.
  induction l as [|b l IH]; intros i skip k r; [intros []|].
  cbn [range_from]. destruct skip as [|skip].
  - destruct (b <? runeSelf).
    + intros [Heq | Hin].
      * injection Heq as <- _. simpl length. lia.
      * apply IH in Hin. simpl length. lia.
    + destruct (decoderune (b :: l)) as [r0 n]. cbn [In].
      intros [Heq | Hin].
      * injection Heq as <- _. simpl length. lia.
      * apply IH in Hin. simpl length. lia.
  - intros Hin. apply IH in Hin. simpl length. lia.
Qed.

Lemma range_from_length l : forall i skip,
  (length (range_from i skip l) <= length l)%nat.
Proof.
  induction l as [|b l IH]; intros i skip; [reflexivity|].
  cbn [range_from]. destruct skip as [|skip].
  - destruct (b <? runeSelf).
    + simpl length. specialize (IH (i + 1) 0%nat). lia.
    + destruct (decoderune (b :: l)) as [r0 n]. simpl length.
      specialize (IH (i + 1) (Nat.pred n)). lia.
  - simpl length. specialize (IH (i + 1) skip). lia.
Qed.

Lemma length_bytes s : length (bytes s) = String.length s.
Proof. induction s as [|c s IH]; [reflexivity|]. simpl. now rewrite IH. Qed.

Lemma cells_text_calls f s :
  cells (text_calls f s)
  = map (fun '(i, c) => ((x f + i)%goint, y f, c)) (range_string s).
Proof.
  unfold text_calls.
  induction (range_string s) as [|[i c] l IH]; [reflexivity|].
  simpl. now rewrite IH.
Qed.

(** X13: on an initialized backend, [Update s] sets one cell per rune
    of [s], never more cells than [s] has bytes, all of them in the row
    of the anchor and at a column offset from the anchor that is below
    the byte length of [s]; the width of the field plays no part. *)
Theorem Update_cells (s : string) (t : tb.Terminal) (f : field) :
  tb.IsInit t = true ->
  length (written (Update s) t f) = Z.to_nat (RuneCountInString s)
  /\ (length (written (Update s) t f) <= String.length s)%nat
  /\ forall cx cy ch, In (cx, cy, ch) (written (Update s) t f) ->
       cy = y f
       /\ exists k, 0 <= k < Z.of_nat (String.length s) /\ cx = (x f + k)%goint.
Proof.
  intros E. rewrite (written_Update _ _ _ E), cells_text_calls.
  rewrite length_map. unfold RuneCountInString. rewrite Nat2Z.id.
  split; [reflexivity|]. split.
  - rewrite <- length_bytes. apply range_from_length.
  - intros cx cy ch Hin. apply in_map_iff in Hin.
    destruct Hin as ([k r] & Heq & Hin). injection Heq as <- <- <-.
    split; [reflexivity|]. exists k. split; [|reflexivity].
    apply range_from_bounds in Hin. rewrite length_bytes in Hin. lia.
Qed.

Lemma Update_cells_witness :
  tb.IsInit term_ready = true
  /\ length (written (Update e_acute_a) term_ready hello_field) = 2%nat
  /\ (length (written (Update e_acute_a) term_ready hello_field) <= 3)%nat.
Proof.
  pose proof (Update_cells e_acute_a term_ready hello_field eq_refl)
    as (Hn & Hle & _).
  split; [reflexivity|]. split; [exact Hn | exact Hle].
Defined.

(** ** How many cells a border takes *)

Lemma count_up_length hi : hi <= maxInt ->
  forall fuel i, minInt <= i -> hi - i <= Z.of_nat fuel ->
  length (count_up fuel i hi) = Z.to_nat (hi - i).
Proof.
  intros Hhi. induction fuel as [|fuel IH]; intros i Hi Hfuel; simpl.
  - lia.
  - destruct (Z.ltb_spec i hi) as [Hlt | Hge]; simpl; [|lia].
    assert (Hs : (i + 1)%goint = i + 1).
    { apply int_add_exact. unfold is_int. lia. }
    rewrite Hs, IH by lia. lia.
Qed.

Lemma length_pairs {A B} (a b : A -> B) (l : list A) :
  length (flat_map (fun i => [a i; b i]) l) = (2 * length l)%nat.
Proof. induction l as [|i l IH]; [reflexivity|]. simpl. lia. Qed.

Lemma length_box_cells f g :
  length (cells (box_calls f g))
  = (6 + 2 * Z.to_nat (len f + 1%Z)%goint)%nat.
Proof.
  unfold box_calls. rewrite cells_app, cells_edges, length_app, length_pairs.
  pose proof (wrap_is_int (len f + 1)) as [Hlo Hhi].
  rewrite count_up_length; unfold int_add, minInt, intSize in *; try lia.
  rewrite Z.sub_0_r. reflexivity.
Qed.

(** X14: on an initialized backend, [DrawBox] with a recognized style
    sets [6 + 2 * (len + 1)] cells when the width is at least 0 and below
    the largest [int]; for a negative width, and for the largest [int],
    whose successor wraps around, it sets only the four corners and the
    two vertical edges. *)
Theorem DrawBox_cell_count (style : boxStyle) (t : tb.Terminal) (f : field) :
  tb.IsInit t = true ->
  recognized style ->
  is_int (len f) ->
  length (written (DrawBox style) t f)
  = if (0 <=? len f) && (len f <? maxInt)
    then Z.to_nat (6 + 2 * (len f + 1))
    else 6%nat.
Proof.
  intros E Hs Hl. destruct (recognized_lookup _ Hs) as [g Hg].
  rewrite (written_DrawBox _ _ _ _ E Hg), length_box_cells.
  rewrite int_add_one by assumption.
  destruct (Z.eqb_spec (len f) maxInt) as [Hmax | Hne].
  - rewrite Hmax. reflexivity.
  - destruct (Z.leb_spec 0 (len f)) as [H0 | Hneg]; simpl.
    + destruct (Z.ltb_spec (len f) maxInt) as [_ | Hge];
        [lia | unfold is_int in Hl; lia].
    + lia.
Qed.

Lemma DrawBox_cell_count_witness :
  tb.IsInit term_ready = true /\ recognized BoxStyleUnicode
  /\ is_int (len hello_field) /\ is_int (len (mkfield 10 5 (-3) 0%N "hello"))
  /\ length (written (DrawBox BoxStyleUnicode) term_ready hello_field) = 24%nat
  /\ length (written (DrawBox BoxStyleUnicode) term_ready
               (mkfield 10 5 (-3) 0%N "hello")) = 6%nat.
Proof.
  assert (Hs : recognized BoxStyleUnicode) by (unfold recognized; lia).
  assert (H1 : is_int (len hello_field))
    by (unfold is_int, minInt, maxInt, intSize; simpl; lia).
  assert (H2 : is_int (len (mkfield 10 5 (-3) 0%N "hello")))
    by (unfold is_int, minInt, maxInt, intSize; simpl; lia).
  split; [reflexivity|]. split; [exact Hs|]. split; [exact H1|].
  split; [exact H2|]. split.
  - exact (DrawBox_cell_count BoxStyleUnicode term_ready hello_field eq_refl Hs H1).
  - exact (DrawBox_cell_count BoxStyleUnicode term_ready _ eq_refl Hs H2).
Defined.

(** ** Erasing a border *)

Lemma coords_box_cells f g1 g2 :
  coords (cells (box_calls f g1)) = coords (cells (box_calls f g2)).
Proof.
  unfold coords, box_calls. rewrite !cells_app, !cells_edges, !map_app.
  f_equal.
  induction (count_up _ _ _) as [|i l IH]; [reflexivity|].
  simpl. now rewrite IH.
Qed.

Lemma clear_box_cells_blank f :
  Forall (fun c => snd c = 32) (cells (box_calls f clear_glyphs)).
Proof.
  unfold box_calls. rewrite cells_app, cells_edges.
  apply Forall_app. split.
  - repeat constructor.
  - induction (count_up _ _ _) as [|i l IH]; [constructor|].
    simpl. repeat constructor. exact IH.
Qed.

(** X15: on an initialized backend, [DrawBox] with the Clear style sets
    the very cells, in the same order, that [DrawBox] with any other
    recognized style sets on the same field, and puts a space in each:
    the cells a border takes do not depend on its style, so Clear
    overwrites all of a drawn border. *)
Theorem DrawBox_Clear_covers_border (style : boxStyle) (t : tb.Terminal) (f : field) :
  tb.IsInit t = true ->
  recognized style ->
  coords (written (DrawBox boxStyleClear) t f)
  = coords (written (DrawBox style) t f)
  /\ Forall (fun c => snd c = 32) (written (DrawBox boxStyleClear) t f).
Proof.
  intros E Hs. destruct (recognized_lookup _ Hs) as [g Hg].
  rewrite (written_DrawBox _ _ _ _ E Clear_glyphs), (written_DrawBox _ _ _ _ E Hg).
  split; [apply coords_box_cells | apply clear_box_cells_blank].
Qed.

Lemma DrawBox_Clear_covers_border_witness :
  tb.IsInit term_ready = true /\ recognized BoxStyleUnicode
  /\ coords (written (DrawBox boxStyleClear) term_ready hello_field)
     = coords (written (DrawBox BoxStyleUnicode) term_ready hello_field)
  /\ Forall (fun c => snd c = 32) (written (DrawBox boxStyleClear) term_ready hello_field).
Proof.
  assert (Hs : recognized BoxStyleUnicode) by (unfold recognized; lia).
  split; [reflexivity|]. split; [exact Hs|].
  exact (DrawBox_Clear_covers_border BoxStyleUnicode term_ready hello_field eq_refl Hs).
Defined.

(** ** A field's first steps *)

(** X16: on an initialized backend, creating a field, drawing a border
    in a public style and shifting the field Down leaves a field one row
    below where it was created, in the same column, with the width and
    text it was created with and the style that was drawn. *)
Theorem NewField_DrawBox_Shift (y0 x0 len0 : Z) (text0 : string)
    (style : boxStyle) (t : tb.Terminal) :
  tb.IsInit t = true ->
  public_style style ->
  exists F t1,
    NewField y0 x0 len0 text0 t = (Some F, None, t1)
    /\ self (exec (DrawBox style ;; Shift FieldShiftDown) t1 (embedded F))
       = mkfield x0 (y0 + 1)%goint len0 style text0.
Proof.
  intros E Hs. apply public_recognized in Hs.
  destruct (recognized_lookup _ Hs) as [g Hg].
  unfold NewField. rewrite Update_init by assumption.
  eexists _, _. split; [reflexivity|]. cbn [embedded self term].
  rewrite exec_bind. unfold exec at 2 3.
  rewrite (DrawBox_init style g) by (assumption || reflexivity).
  cbn [snd self term]. rewrite Shift_self by exact Hs. reflexivity.
Qed.

Lemma NewField_DrawBox_Shift_witness :
  tb.IsInit term_ready = true /\ public_style BoxStyleASCII
  /\ exists F t1,
       NewField 5 10 8 "hello" term_ready = (Some F, None, t1)
       /\ self (exec (DrawBox BoxStyleASCII ;; Shift FieldShiftDown) t1 (embedded F))
          = mkfield 10 6 8 BoxStyleASCII "hello".
Proof.
  assert (Hs : public_style BoxStyleASCII) by (right; left; reflexivity).
  split; [reflexivity|]. split; [exact Hs|].
  exact (NewField_DrawBox_Shift 5 10 8 "hello" BoxStyleASCII term_ready eq_refl Hs).
Defined.

(** ** What drawing leaves alone *)

(** X17: [Update] and [DrawBox] never move a field: after either, with
    any argument and in any backend state, row and column are what they
    were; [Update] also leaves the border style and [DrawBox] the
    text. *)
Theorem drawing_keeps_position (t : tb.Terminal) (f : field) :
  (forall s,
      let f' := self (exec (Update s) t f) in
      x f' = x f /\ y f' = y f /\ border f' = border f)
  /\ (forall style,
      let f' := self (exec (DrawBox style) t f) in
      x f' = x f /\ y f' = y f /\ text f' = text f).
Proof.
  split; [intros s | intros style]; cbv zeta; unfold exec.
  - destruct (tb.IsInit t) eqn:E;
      [now rewrite Update_init | now rewrite Update_not_init].
  - destruct (tb.IsInit t) eqn:E; [|now rewrite DrawBox_not_init].
    destruct (boxRunesMap !! style) as [g|] eqn:Hg.
    + now rewrite (DrawBox_init _ _ _ _ E Hg).
    + now rewrite DrawBox_unknown.
Qed.

(** X18: the fields the package builds stay well formed: if every
    [int] attribute of a field is in range and its border style is a key
    of the glyph table, the same holds after [Update], after [DrawBox]
    with any style value, after [Loc] to [int] coordinates and after
    [Shift] in any direction, in every backend state.  So the stored
    style never makes the redraw in [Loc] or [Shift] fail. *)
Theorem valid_field_kept (t : tb.Terminal) (f : field) :
  valid_field f ->
  (forall s, valid_field (self (exec (Update s) t f)))
  /\ (forall style, valid_field (self (exec (DrawBox style) t f)))
  /\ (forall r c, is_int r -> is_int c -> valid_field (self (exec (Loc r c) t f)))
  /\ (forall dir, valid_field (self (exec (Shift dir) t f))).
Proof.
  intros Hf. split; [|split; [|split]]; intros.
  - now apply Update_valid.
  - now apply DrawBox_valid.
  - now apply Loc_valid.
  - now apply Shift_valid.
Qed.

Lemma valid_field_kept_witness :
  valid_field hello_field
  /\ valid_field (self (exec (DrawBox 7%N) term_ready hello_field))
  /\ valid_field (self (exec (Shift FieldShiftLeft) term_closed hello_field)).
Proof.
  assert (Hv : valid_field hello_field).
  { unfold valid_field, is_int, recognized, minInt, maxInt, intSize. simpl.
    repeat split; lia. }
  pose proof (valid_field_kept term_ready hello_field Hv) as (_ & HD & _).
  pose proof (valid_field_kept term_closed hello_field Hv) as (_ & _ & _ & HS).
  split; [exact Hv|]. split; [exact (HD 7%N) | exact (HS FieldShiftLeft)].
Defined.
